(** * op-status: a shallow embedding of the Go packages [opstatus],
    [opstatus/http] and [opstatus/error], and the properties of their
    status model.

    Conventions of the embedding.
    - A Go [int] is a [Z]; the code only compares and prints integers, so no
      wrap-around arises.
    - A Go [string] is a [string] of bytes.
    - A Go [map] is a reference: the [details] field of a [Status] holds
      either [nil] or the address of a map in a heap of maps, so that struct
      copies share their map exactly as in Go.
    - A [*Status] is represented by the [Status] struct it points to: no
      function of the package assigns to a field through such a pointer.
    - A call either returns or panics ([outcome]); functions that allocate or
      update a map thread the heap ([M]). *)

From Stdlib Require Import ZArith Ascii DecimalString.
From stdpp Require Import base gmap strings list sorting.

Local Open Scope Z_scope.
Set Warnings "-register-all".

(** ** Results of calls *)

Inductive outcome (A : Type) : Type :=
| Returns (a : A)
| Panics (msg : string).
Arguments Returns {A} a.
Arguments Panics {A} msg.

(** [a[i]] on a slice: Go panics when the index is out of range. *)
Definition index {A} (l : list A) (i : Z) : outcome A :=
  if bool_decide (i < 0 ∨ Z.of_nat (length l) ≤ i)
  then Panics "index out of range"
  else match l !! Z.to_nat i with
       | Some a => Returns a
       | None => Panics "index out of range"
       end.

(** The value a package-level variable holds once its initialiser ran. A
    panic in an initialiser aborts the program before any function of the
    package can be called; [d] stands for that case only. *)
Definition initialised {A} (d : A) (o : outcome A) : A :=
  match o with
  | Returns a => a
  | Panics _ => d
  end.

(** The one-byte string Go writes as a backslash followed by n. *)
Definition newline : string := String "010"%char EmptyString.

(** ** Package [strings]: [TrimSpace] *)

Module strings_pkg.

(** [bs] is the UTF-8 encoding of one rune for which [unicode.IsSpace]
    holds: tab, line feed, vertical tab, form feed, carriage return, space,
    U+0085, U+00A0, U+1680, U+2000..U+200A, U+2028, U+2029, U+202F, U+205F
    and U+3000. *)
Definition isSpaceRune (bs : list ascii) : bool :=
  match N_of_ascii <$> bs with
  | [c] => ((9 <=? c) && (c <=? 13) || (c =? 32))%N
  | [b1; b2] => ((b1 =? 0xC2) && ((b2 =? 0x85) || (b2 =? 0xA0)))%N
  | [b1; b2; b3] =>
      ((b1 =? 0xE1) && (b2 =? 0x9A) && (b3 =? 0x80)
       || (b1 =? 0xE2) && (b2 =? 0x80)
          && ((0x80 <=? b3) && (b3 <=? 0x8A)
              || (b3 =? 0xA8) || (b3 =? 0xA9) || (b3 =? 0xAF))
       || (b1 =? 0xE2) && (b2 =? 0x81) && (b3 =? 0x9F)
       || (b1 =? 0xE3) && (b2 =? 0x80) && (b3 =? 0x80))%N
  | _ => false
  end.

(** Drops from the front of [l] every rune recognised by [isSp]. *)
Fixpoint trimFront (isSp : list ascii → bool) (l : list ascii) : list ascii :=
  match l with
  | [] => []
  | c1 :: r1 =>
      if isSp [c1] then trimFront isSp r1
      else match r1 with
           | [] => l
           | c2 :: r2 =>
               if isSp [c1; c2] then trimFront isSp r2
               else match r2 with
                    | [] => l
                    | c3 :: r3 =>
                        if isSp [c1; c2; c3] then trimFront isSp r3 else l
                    end
           end
  end.

(** Leading white space is removed first, then trailing white space; the
    trailing pass reads the bytes from the end, so each rune is seen with
    its bytes reversed. *)
Definition TrimSpace (s : string) : string :=
  let start := trimFront isSpaceRune (String.list_ascii_of_string s) in
  let stop := trimFront (λ bs, isSpaceRune (reverse bs)) (reverse start) in
  String.string_of_list_ascii (reverse stop).

End strings_pkg.

(** ** Package [fmt]: the part of [Sprintf] the packages use *)

(** Values of the package's [type any interface{}] that reach [fmt] and the
    detail bags; [ASlice] is a [[]any], the type of [fmtArgs]. *)
Inductive any : Type :=
| ANil
| AInt (n : Z)
| AString (s : string)
| ASlice (elems : list any).

Module fmt.

(** [strconv.Itoa]: decimal digits, with a minus sign below zero. *)
Definition itoa (n : Z) : string := NilZero.string_of_int (Z.to_int n).

(** The default format [%v] of an operand: an integer in decimal, a
    string as it is, a slice as its elements between brackets separated by
    single spaces. *)
Fixpoint formatV (a : any) : string :=
  match a with
  | ANil => "<nil>"
  | AInt n => itoa n
  | AString s => s
  | ASlice elems =>
      "[" +:+
      (fix spaced (l : list any) : string :=
         match l with
         | [] => ""
         | x :: r =>
             match r with
             | [] => formatV x
             | _ :: _ => formatV x +:+ " " +:+ spaced r
             end
         end) elems
      +:+ "]"
  end.

Definition typeName (a : any) : string :=
  match a with
  | ANil => "<nil>"
  | AInt _ => "int"
  | AString _ => "string"
  | ASlice _ => "[]opstatus.any"
  end.

Definition typedValue (a : any) : string :=
  match a with
  | ANil => "<nil>"
  | _ => typeName a +:+ "=" +:+ formatV a
  end.

Fixpoint commaSep (l : list string) : string :=
  match l with
  | [] => ""
  | x :: r =>
      match r with
      | [] => x
      | _ :: _ => x +:+ ", " +:+ commaSep r
      end
  end.

(** Operands left over when the format is exhausted. *)
Definition extra (args : list any) : string :=
  match args with
  | [] => ""
  | _ :: _ => "%!(EXTRA " +:+ commaSep (typedValue <$> args) +:+ ")"
  end.

(** [Sprintf format args...]. Only the verbs these packages write are
    interpreted: [%v] and [%%]. Flags, widths and the other verbs are not
    part of this model: a character [c] after [%] other than [v] and [%] is
    rendered as fmt renders a verb that does not apply to its operand, which
    keeps the function total; nothing below relies on that case. *)
Fixpoint Sprintf (format : string) (args : list any) : string :=
  match format with
  | EmptyString => extra args
  | String "%" rest =>
      match rest with
      | EmptyString => "%!(NOVERB)" +:+ extra args
      | String "%" rest' => String "%" (Sprintf rest' args)
      | String c rest' =>
          match args with
          | [] => "%!" +:+ String c "(MISSING)" +:+ Sprintf rest' []
          | a :: args' =>
              (if Ascii.eqb c "v" then formatV a
               else "%!" +:+ String c ("(" +:+ typedValue a +:+ ")"))
              +:+ Sprintf rest' args'
          end
      end
  | String c rest => String c (Sprintf rest args)
  end.

End fmt.

(** ** Package [http]: the wire statuses *)

Module http.

(** [type Status int] *)
Definition Status : Type := Z.

Definition StatusOK : Status := 200.
Definition StatusBadRequest : Status := 400.
Definition StatusUnauthorized : Status := 401.
Definition StatusForbidden : Status := 403.
Definition StatusNotFound : Status := 404.
Definition StatusConflict : Status := 409.
Definition StatusTooManyRequests : Status := 429.
Definition StatusClientClosedRequest : Status := 499.
Definition StatusInternalServerError : Status := 500.
Definition StatusNotImplemented : Status := 501.
Definition StatusServiceUnavailable : Status := 503.
Definition StatusTimeout : Status := 504.

Definition statusToName : gmap Z string :=
  list_to_map
    [ (StatusOK, "OK");
      (StatusBadRequest, "BadRequest");
      (StatusUnauthorized, "Unauthorized");
      (StatusForbidden, "Forbidden");
      (StatusNotFound, "NotFound");
      (StatusConflict, "Conflict");
      (StatusTooManyRequests, "TooManyRequests");
      (StatusClientClosedRequest, "ClientClosedRequest");
      (StatusInternalServerError, "InternalServerError");
      (StatusNotImplemented, "NotImplemented");
      (StatusServiceUnavailable, "ServiceUnavailable");
      (StatusTimeout, "Timeout") ].

Definition Code (hs : Status) : Z := hs.

Definition IsDefined (statusCode : Z) : bool :=
  let status : Status := statusCode in
  match statusToName !! status with
  | Some _ => true
  | None => false
  end.

End http.

(** ** Package [opstatus]: codes *)

(** [type Code struct { name string; value int }], built by [newCode]. *)
Record Code : Type := newCode { name : string; value : Z }.

#[global] Instance Code_eq_dec : EqDecision Code.
Proof. solve_decision. Defined.

#[global] Instance Code_countable : Countable Code.
Proof.
  refine (inj_countable' (λ c, (name c, value c)) (λ p, newCode p.1 p.2) _).
  by intros [].
Defined.

Definition CodeOK := newCode "OK" 0.
Definition CodeCancelled := newCode "OperationCancelled" 1.
Definition CodeUnknown := newCode "UnknownError" 2.
Definition CodeInvalidArgument := newCode "InvalidArgument" 3.
Definition CodeDeadlineExceeded := newCode "DeadlineExceeded" 4.
Definition CodeNotFound := newCode "NotFound" 5.
Definition CodeAlreadyExists := newCode "AlreadyExists" 6.
Definition CodePermissionDenied := newCode "PermissionDenied" 7.
Definition CodeUnauthenticated := newCode "Unauthenticated" 16.
Definition CodeResourceExhausted := newCode "ResourceExhausted" 8.
Definition CodeFailedPrecondition := newCode "FailedPrecondition" 9.
Definition CodeAborted := newCode "OperationAborted" 10.
Definition CodeOutOfRange := newCode "OutOfRange" 11.
Definition CodeUnimplemented := newCode "OperationUnimplemented" 12.
Definition CodeInternal := newCode "InternalError" 13.
Definition CodeUnavailable := newCode "ServiceUnavailable" 14.
Definition CodeDataLoss := newCode "DataLoss" 15.

(** The codes in the order [codeList]'s initialiser appends them. *)
Definition appendedCodes : list Code :=
  [ CodeOK; CodeCancelled; CodeUnknown; CodeInvalidArgument;
    CodeDeadlineExceeded; CodeNotFound; CodeAlreadyExists;
    CodePermissionDenied; CodeUnauthenticated; CodeResourceExhausted;
    CodeFailedPrecondition; CodeAborted; CodeOutOfRange; CodeUnimplemented;
    CodeInternal; CodeUnavailable; CodeDataLoss ].

(** The order [sort.Slice] establishes with [less i j := list[i].value <
    list[j].value]: no element is less than one before it. *)
Definition byValue (c d : Code) : Prop := value c ≤ value d.

#[global] Instance byValue_dec : RelDecision byValue.
Proof. intros c d. unfold byValue. apply _. Defined.

(** [sort.Slice] is some sorting algorithm for [byValue]; merge sort stands
    for it. [codeList_any_sort] below shows that the choice is immaterial:
    every sorted rearrangement of [appendedCodes] is this list. *)
Definition codeList : list Code := merge_sort byValue appendedCodes.

Definition Value (c : Code) : Z := value c.

Definition Code_String (c : Code) : string :=
  name c +:+ "(" +:+ fmt.itoa (value c) +:+ ")".

(** ** Retry advice *)

Definition RetryAdvice : Type := string.
Definition JustRetryFailingCall : RetryAdvice := "just_retry_failing_call".
Definition RetryAtHigherLevel : RetryAdvice := "retry_at_higher_level".
Definition NotRetryUntilStateFixed : RetryAdvice := "not_retry_until_state_fixed".
Definition NoAdvice : RetryAdvice := "no_advice".

(** ** The heap of detail maps *)

(** The address of a map: its position in the heap. *)
Abbreviation loc := nat.

Abbreviation heap := (list (gmap string any)).

(** Heap-threading calls that may panic. *)
Definition M (A : Type) : Type := heap → outcome (A * heap).

Definition ret {A} (a : A) : M A := λ h, Returns (a, h).

Definition bind {A B} (m : M A) (k : A → M B) : M B := λ h,
  match m h with
  | Returns (a, h') => k a h'
  | Panics msg => Panics msg
  end.

Definition panic {A} (msg : string) : M A := λ _, Panics msg.

Definition lift {A} (o : outcome A) : M A := λ h,
  match o with
  | Returns a => Returns (a, h)
  | Panics msg => Panics msg
  end.

Notation "'let!' x ':=' m 'in' k" := (bind m (λ x, k))
  (at level 10, x pattern, m at level 100, k at level 200).

(** [make(map[string]any)] or a map literal: a new map at a new address. *)
Definition alloc (m : gmap string any) : M loc := λ h,
  Returns (length h, h ++ [m]).

(** The entries of the map at [l]. *)
Definition entries (h : heap) (l : loc) : gmap string any := default ∅ (h !! l).

(** [m[key] = value] on the map at [l]. *)
Definition store (l : loc) (key : string) (value : any) : M unit := λ h,
  Returns (tt, alter (λ m, <[key:=value]> m) l h).

(** ** Package [opstatus]: statuses *)

(** [type Case interface { Identifier() string }]: an implementation is
    known by the identifier it yields. *)
Record Case : Type := mkCase { Identifier : string }.

(** [type Status struct]; [theCase] is [None] for the nil interface and
    [details] is [None] for the nil map. *)
Record Status : Type := mkStatus {
  code : Code;
  theCase : option Case;
  description : string;
  details : option loc
}.

Definition newStatus (code : Code) : Status :=
  {| code := code; theCase := None; description := ""; details := None |}.

(** [Status{}] *)
Definition zeroStatus : Status := newStatus (newCode "" 0).

Definition statusList : list Status :=
  foldl (λ list code, list ++ [newStatus code]) [] codeList.

Definition toStatus (c : Code) : outcome Status := index statusList (value c).

Definition StatusOK := initialised zeroStatus (toStatus CodeOK).
Definition StatusCancelled := initialised zeroStatus (toStatus CodeCancelled).
Definition StatusUnknown := initialised zeroStatus (toStatus CodeUnknown).
Definition StatusInvalidArgument := initialised zeroStatus (toStatus CodeInvalidArgument).
Definition StatusDeadlineExceeded := initialised zeroStatus (toStatus CodeDeadlineExceeded).
Definition StatusNotFound := initialised zeroStatus (toStatus CodeNotFound).
Definition StatusAlreadyExists := initialised zeroStatus (toStatus CodeAlreadyExists).
Definition StatusPermissionDenied := initialised zeroStatus (toStatus CodePermissionDenied).
Definition StatusUnauthenticated := initialised zeroStatus (toStatus CodeUnauthenticated).
Definition StatusResourceExhausted := initialised zeroStatus (toStatus CodeResourceExhausted).
Definition StatusFailedPrecondition := initialised zeroStatus (toStatus CodeFailedPrecondition).
Definition StatusAborted := initialised zeroStatus (toStatus CodeAborted).
Definition StatusOutOfRange := initialised zeroStatus (toStatus CodeOutOfRange).
Definition StatusUnimplemented := initialised zeroStatus (toStatus CodeUnimplemented).
Definition StatusInternal := initialised zeroStatus (toStatus CodeInternal).
Definition StatusUnavailable := initialised zeroStatus (toStatus CodeUnavailable).
Definition StatusDataLoss := initialised zeroStatus (toStatus CodeDataLoss).

Definition codeToHTTPStatus : gmap Code http.Status :=
  list_to_map
    [ (CodeOK, http.StatusOK);
      (CodeInvalidArgument, http.StatusBadRequest);
      (CodeFailedPrecondition, http.StatusBadRequest);
      (CodeOutOfRange, http.StatusBadRequest);
      (CodeUnauthenticated, http.StatusUnauthorized);
      (CodePermissionDenied, http.StatusForbidden);
      (CodeNotFound, http.StatusNotFound);
      (CodeAborted, http.StatusConflict);
      (CodeAlreadyExists, http.StatusConflict);
      (CodeResourceExhausted, http.StatusTooManyRequests);
      (CodeCancelled, http.StatusClientClosedRequest);
      (CodeDataLoss, http.StatusInternalServerError);
      (CodeUnknown, http.StatusInternalServerError);
      (CodeInternal, http.StatusInternalServerError);
      (CodeUnimplemented, http.StatusNotImplemented);
      (CodeUnavailable, http.StatusServiceUnavailable);
      (CodeDeadlineExceeded, http.StatusTimeout) ].

Definition httpStatusToOpStatus : gmap Z Status :=
  list_to_map
    [ (http.StatusOK, StatusOK);
      (http.StatusBadRequest, StatusInvalidArgument);
      (http.StatusUnauthorized, StatusUnauthenticated);
      (http.StatusForbidden, StatusPermissionDenied);
      (http.StatusNotFound, StatusNotFound);
      (http.StatusConflict, StatusAlreadyExists);
      (http.StatusTooManyRequests, StatusResourceExhausted);
      (http.StatusClientClosedRequest, StatusCancelled);
      (http.StatusInternalServerError, StatusInternal);
      (http.StatusNotImplemented, StatusUnimplemented);
      (http.StatusServiceUnavailable, StatusUnavailable);
      (http.StatusTimeout, StatusDeadlineExceeded) ].

(** [c.toHTTPStatus()]: a map read, which yields the zero value for a key
    that is absent. *)
Definition toHTTPStatus (c : Code) : http.Status :=
  default 0 (codeToHTTPStatus !! c).

(** [NewByHTTPStatus] has one effect besides its result: it may write a line
    to the log. The pair is the lines written (without the logger's time
    stamp) and the [Status] the returned pointer refers to. *)
Definition NewByHTTPStatus (statusCode : Z) : list string * Status :=
  if negb (http.IsDefined statusCode) then
    let unknownCopy := StatusUnknown in
    ([], unknownCopy)
  else
    let '(opStatus, found) :=
      match httpStatusToOpStatus !! statusCode with
      | Some st => (st, true)
      | None => (zeroStatus, false)
      end in
    (if found
     then [fmt.Sprintf
             ("[OpError] not found op-status mapped to given defined http status %v"
              +:+ newline)
             [AInt statusCode]]
     else [],
     opStatus).

Definition copyDetails (details : option loc) : M (option loc) :=
  match details with
  | None => let! l := alloc ∅ in ret (Some l)
  | Some d => λ h,
      let copy := map_fold (λ k v copy, <[k:=v]> copy) ∅ (entries h d) in
      (let! l := alloc copy in ret (Some l)) h
  end.

Definition WithDescription (s : Status) (text : string) : M Status :=
  let text := strings_pkg.TrimSpace text in
  if bool_decide (s.(description) = text) then
    let copy := s in
    ret copy
  else
    let! d := copyDetails s.(details) in
    ret {| code := s.(code);
           theCase := s.(theCase);
           description := text;
           details := d |}.

(** [fmt.Sprintf(descFmt, fmtArgs)]: the slice [fmtArgs] is handed over as
    one operand, not spread with [fmtArgs...]. *)
Definition WithDescriptionf (s : Status) (descFmt : string)
    (fmtArgs : list any) : M Status :=
  WithDescription s (fmt.Sprintf descFmt [ASlice fmtArgs]).

Definition AugmentDescription (s : Status) (additionalDetail : string)
    : M Status :=
  if bool_decide (additionalDetail = "") then
    let copy := s in
    ret copy
  else
    let newMsg :=
      if bool_decide (s.(description) = "") then additionalDetail
      else s.(description) +:+ newline +:+ additionalDetail in
    WithDescription s newMsg.

Definition NewWithCodeValue (codeValue : Z) : M Status :=
  if bool_decide (codeValue < 0 ∨ codeValue >= Z.of_nat (length statusList))
  then WithDescriptionf StatusUnknown "Unknown op status code: %v"
         [AInt codeValue]
  else lift (index statusList codeValue).

Definition NewWithCode (code : Code) : outcome Status :=
  index statusList (value code).

Definition AddDetail (s : Status) (key : string) (value : any) : M unit :=
  let key := strings_pkg.TrimSpace key in
  if bool_decide (key = "") then ret tt
  else match s.(details) with
       | None => panic "assignment to entry in nil map"
       | Some d => store d key value
       end.

Definition IsOK (s : Status) : bool := bool_decide (s.(code) = CodeOK).

Definition ToErrorCondition (s : Status) : string :=
  if bool_decide (s.(description) = "") then Code_String s.(code)
  else Code_String s.(code) +:+ ": " +:+ s.(description).

Definition Status_RetryAdvice (s : Status) : RetryAdvice :=
  let advice := NoAdvice in
  if bool_decide (s.(code) = CodeUnavailable) then JustRetryFailingCall
  else if bool_decide (s.(code) = CodeFailedPrecondition)
       then NotRetryUntilStateFixed
  else if bool_decide (s.(code) = CodeAborted ∨ s.(code) = CodeResourceExhausted)
       then RetryAtHigherLevel
  else advice.

(** ** Package [error]: the causal error and the chain walk *)

Module operror.

(** [reflect.Kind] *)
Inductive Kind : Type :=
| Invalid | Bool | Int | Int8 | Int16 | Int32 | Int64
| Uint | Uint8 | Uint16 | Uint32 | Uint64 | Uintptr
| Float32 | Float64 | Complex64 | Complex128
| Array | Chan | Func | Interface | Map | Pointer | Slice
| String_ | Struct | UnsafePointer.

(** A value of the interface type [error].
    - [nilError] is the nil interface.
    - [ptrOpError p] holds a [*OpError]: [Some e] points to the struct [e],
      [None] is the nil pointer.
    - [dynError k isnil inner] holds a value of any other concrete type: [k]
      is its kind, [isnil] tells whether the value is nil (meaningful for
      the kinds that have a nil), [inner] is what [errors.Unwrap] yields for
      it, [nilError] when the type has no [Unwrap() error] method.
    [type OpError struct { cause error; status *opstatus.Status }]. *)
Inductive error : Type :=
| nilError
| ptrOpError (p : option OpError)
| dynError (k : Kind) (isnil : bool) (inner : error)
with OpError : Type :=
| mkOpError (cause : error) (status : option Status).

Definition cause (e : OpError) : error :=
  match e with mkOpError c _ => c end.

Definition status (e : OpError) : option Status :=
  match e with mkOpError _ st => st end.

(** [var opErr OpError] *)
Definition zeroOpError : OpError := mkOpError nilError None.

Definition NewWithStatus (st : Status) : OpError :=
  mkOpError nilError (Some st).

Definition NewWithStatusAndCause (st : Status) (c : error) : OpError :=
  mkOpError c (Some st).

(** The methods [Status] and [Cause] of [*OpError]. *)
Definition OpError_Status (e : OpError) : option Status := status e.
Definition OpError_Cause (e : OpError) : error := cause e.

(** How the source declares the receiver of a method. *)
Inductive receiver : Type := ByValue | ByPointer.

#[global] Instance receiver_eq_dec : EqDecision receiver.
Proof. solve_decision. Defined.

(** The methods the package declares for [OpError]: all three are written
    [func (e *OpError) ...]. *)
Definition OpError_methods : list (string * receiver) :=
  [ ("Status", ByPointer); ("Cause", ByPointer); ("Error", ByPointer) ].

(** The method set of [OpError] ([pointer = false]) or of [*OpError]
    ([pointer = true]): a method with a pointer receiver belongs to the
    method set of the pointer type only. *)
Definition methodSet (pointer : bool) : list string :=
  (filter (λ m, pointer = true ∨ m.2 = ByValue) OpError_methods).*1.

(** A type implements [error] when its method set has [Error]. *)
Definition implementsError (pointer : bool) : bool :=
  bool_decide ("Error" ∈ methodSet pointer).

(** ** [reflect] *)

Record Value : Type := mkValue { Value_Kind : Kind; Value_IsNil : bool }.

(** [reflect.ValueOf(err)]: the zero [Value], of kind [Invalid], for the nil
    interface, and the concrete value otherwise. [Value_IsNil] is read
    only under the kinds that have a nil, as [reflect] requires. *)
Definition ValueOf (err : error) : Value :=
  match err with
  | nilError => mkValue Invalid false
  | ptrOpError p => mkValue Pointer (if p is None then true else false)
  | dynError k isnil _ => mkValue k isnil
  end.

(** ** [errors] *)

(** [errors.Unwrap]: [*OpError] declares no [Unwrap] method. *)
Definition Unwrap (err : error) : error :=
  match err with
  | dynError _ _ inner => inner
  | _ => nilError
  end.

(** The walk of [errors.As] for a target of type [*OpError]: a link
    matches when its concrete value is assignable to [OpError]. No value
    of type [error] has the concrete type [OpError], which lacks the
    [Error] method, so every link is passed over: a [*OpError] ends the
    walk, having no [Unwrap] method, and any other link is unwrapped. *)
Fixpoint asWalk (err : error) (target : OpError) : bool * OpError :=
  match err with
  | nilError => (false, target)
  | ptrOpError _ => (false, target)
  | dynError _ _ inner => asWalk inner target
  end.

(** [errors.As(err, target)] where [target] has type [*OpError] and is not
    nil; [elem] is the struct [target] points to and the second component
    of the result is that struct after the call. As the library documents,
    "As panics if target is not a non-nil pointer to either a type that
    implements error, or to any interface type": here the pointed-to type
    is the struct type [OpError]. A nil [err] is answered with false
    before the target is examined (releases before Go 1.20 examine the target
    first; [StatusFromErrChain] never passes a nil [err]). *)
Definition As (err : error) (elem : OpError) : outcome (bool * OpError) :=
  match err with
  | nilError => Returns (false, elem)
  | _ =>
      if implementsError false then Returns (asWalk err elem)
      else Panics "errors: *target must be interface or implement error"
  end.

(** ** The functions of the package *)

Definition IsNil (err : error) : bool :=
  match err with
  | nilError => true
  | _ =>
      let ifaceVal := ValueOf err in
      match Value_Kind ifaceVal with
      | Invalid => true
      | Chan | Func | Map | Pointer | UnsafePointer | Interface | Slice =>
          Value_IsNil ifaceVal
      | _ => false
      end
  end.

Definition AsOpError (err : error) : outcome (bool * OpError) :=
  let opErr := zeroOpError in
  As err opErr.

(** The [for !IsNil(cause)] loop of [StatusFromErrChain]. The recursion
    follows [errors.Unwrap], see [chainLoop_unfold]; a result [None]
    is the nil [*Status]. *)
Fixpoint chainLoop (cause : error) : outcome (option Status) :=
  if IsNil cause then Returns None
  else
    match AsOpError cause with
    | Panics msg => Panics msg
    | Returns (true, opErr) => Returns (OpError_Status opErr)
    | Returns (false, _) =>
        match cause with
        | dynError _ _ inner => chainLoop inner
        | _ => Returns None
        end
    end.

Definition StatusFromErrChain (err : error) : outcome (option Status) :=
  if IsNil err then Returns None
  else
    let cause := err in
    chainLoop cause.

End operror.

(** ** Package [opstatus]: cases and bulk details *)

#[global] Instance Case_eq_dec : EqDecision Case.
Proof. solve_decision. Defined.

(** [s.theCase == theCase] compares two interface values, that is, the
    implementations they hold. The cases of this model are implementations
    told apart by their identifiers, as the values of one string-based case
    type are. In both branches the derived struct takes the map of [s] as
    it is; no map is made. *)
Definition WithCase (s : Status) (c : option Case) : Status :=
  if bool_decide (s.(theCase) = c) then
    let copy := s in
    copy
  else
    {| code := s.(code);
       theCase := c;
       description := s.(description);
       details := s.(details) |}.

Definition WithCaseAndDesc (s : Status) (c : option Case) (text : string)
    : M Status :=
  let text := strings_pkg.TrimSpace text in
  if bool_decide (s.(theCase) = c ∧ s.(description) = text) then
    let copy := s in
    ret copy
  else
    let! d := copyDetails s.(details) in
    ret {| code := s.(code);
           theCase := c;
           description := text;
           details := d |}.

(** As in [WithDescriptionf], the slice [fmtArgs] is one operand. *)
Definition WithCaseAndDescf (s : Status) (c : option Case) (descFmt : string)
    (fmtArgs : list any) : M Status :=
  let desc := fmt.Sprintf descFmt [ASlice fmtArgs] in
  WithCaseAndDesc s c desc.

(** [for key, val := range details { s.AddDetail(key, val) }]. Go yields the
    entries of a map in an order of its choosing: [visited] is the sequence
    of entries the loop yields, first to last. *)
Fixpoint AddDetails (s : Status) (visited : list (string * any)) : M unit :=
  match visited with
  | [] => ret tt
  | (key, val) :: rest =>
      let! _ := AddDetail s key val in
      AddDetails s rest
  end.

(** ** Predicates used in the statements below *)

(** The first rune of [l], read as one, two or three bytes, is not
    recognised by [isSp]. *)
Definition noLeadingSpace (isSp : list ascii → bool) (l : list ascii) : Prop :=
  match l with
  | [] => True
  | c1 :: r1 =>
      isSp [c1] = false
      ∧ match r1 with
        | [] => True
        | c2 :: r2 =>
            isSp [c1; c2] = false
            ∧ match r2 with
              | [] => True
              | c3 :: _ => isSp [c1; c2; c3] = false
              end
        end
  end.

(** [TrimSpace] leaves the text as it is. *)
Definition trimmed (text : string) : Prop := strings_pkg.TrimSpace text = text.

(** The key is dropped by [AddDetail]. *)
Definition blankKey (key : string) : bool :=
  bool_decide (strings_pkg.TrimSpace key = "").

(** What a sequence of [AddDetail] calls makes of a map: each entry whose
    key is not blank is written under its trimmed key, later entries over
    earlier ones. *)
Definition written (m : gmap string any) (visited : list (string * any))
    : gmap string any :=
  foldl (λ m kv, if blankKey kv.1 then m
                 else <[strings_pkg.TrimSpace kv.1 := kv.2]> m)
        m visited.

(** The trimmed keys that a sequence of [AddDetail] calls writes, in the
    order of the calls. *)
Definition trimmedKeys (visited : list (string * any)) : list string :=
  omap (λ kv, if blankKey kv.1 then None
              else Some (strings_pkg.TrimSpace kv.1)) visited.

(** * Properties *)

(** ** The code registry *)

Lemma codeList_eq :
  codeList =
  [ CodeOK; CodeCancelled; CodeUnknown; CodeInvalidArgument;
    CodeDeadlineExceeded; CodeNotFound; CodeAlreadyExists;
    CodePermissionDenied; CodeResourceExhausted; CodeFailedPrecondition;
    CodeAborted; CodeOutOfRange; CodeUnimplemented; CodeInternal;
    CodeUnavailable; CodeDataLoss; CodeUnauthenticated ].
Proof. reflexivity. Qed.

Lemma statusList_eq : statusList = newStatus <$> codeList.
Proof. reflexivity. Qed.

(** No initialiser of a status variable panics: each variable holds the
    prototype of its code. *)
Lemma status_variables_initialised :
  Forall (λ p, toStatus p.1 = Returns p.2 ∧ p.2 = newStatus p.1)
    [ (CodeOK, StatusOK); (CodeCancelled, StatusCancelled);
      (CodeUnknown, StatusUnknown);
      (CodeInvalidArgument, StatusInvalidArgument);
      (CodeDeadlineExceeded, StatusDeadlineExceeded);
      (CodeNotFound, StatusNotFound);
      (CodeAlreadyExists, StatusAlreadyExists);
      (CodePermissionDenied, StatusPermissionDenied);
      (CodeUnauthenticated, StatusUnauthenticated);
      (CodeResourceExhausted, StatusResourceExhausted);
      (CodeFailedPrecondition, StatusFailedPrecondition);
      (CodeAborted, StatusAborted); (CodeOutOfRange, StatusOutOfRange);
      (CodeUnimplemented, StatusUnimplemented);
      (CodeInternal, StatusInternal); (CodeUnavailable, StatusUnavailable);
      (CodeDataLoss, StatusDataLoss) ].
Proof. repeat (constructor; [split; reflexivity | ]). constructor. Qed.

#[global] Instance byValue_trans : Transitive byValue.
Proof. unfold byValue. intros c d e. lia. Qed.

#[global] Instance byValue_total : Total byValue.
Proof. unfold byValue. intros c d. lia. Qed.

Lemma appendedCodes_values_distinct : NoDup (value <$> appendedCodes).
Proof. apply (bool_decide_unpack _). by vm_compute. Qed.

(** Two codes of the registry with the same value are the same code. *)
Lemma appendedCodes_value_inj (c d : Code) :
  c ∈ appendedCodes → d ∈ appendedCodes → value c = value d → c = d.
Proof.
  intros Hc Hd Hv.
  apply list_elem_of_lookup in Hc as [i Hi].
  apply list_elem_of_lookup in Hd as [j Hj].
  assert (i = j) as ->.
  { eapply NoDup_lookup; [apply appendedCodes_values_distinct | | ].
    - rewrite list_lookup_fmap, Hi. reflexivity.
    - rewrite list_lookup_fmap, Hj. simpl. by rewrite Hv. }
  congruence.
Qed.

(** Whatever algorithm [sort.Slice] runs, its result is [codeList]: the
    rearrangement of the appended codes that is sorted by value is unique. *)
Lemma codeList_any_sort (l : list Code) :
  l ≡ₚ appendedCodes → Sorted byValue l → l = codeList.
Proof.
  intros Hperm Hsorted.
  pose proof (Sorted_merge_sort byValue appendedCodes) as Hs.
  pose proof (merge_sort_Permutation byValue appendedCodes) as Hp.
  apply (Sorted_unique_strong byValue);
    [ | exact Hsorted | exact Hs | by rewrite Hperm, Hp ].
  intros c d Hc Hd Hcd Hdc. apply appendedCodes_value_inj.
  - by rewrite <- Hperm.
  - rewrite <- Hp. exact Hd.
  - unfold byValue in *. lia.
Qed.

(** Case analysis on an index below 17 and on membership in a listed table. *)
Ltac index_cases i :=
  let H := fresh in
  assert (H : i = 0 ∨ i = 1 ∨ i = 2 ∨ i = 3 ∨ i = 4 ∨ i = 5 ∨ i = 6 ∨ i = 7
              ∨ i = 8 ∨ i = 9 ∨ i = 10 ∨ i = 11 ∨ i = 12 ∨ i = 13 ∨ i = 14
              ∨ i = 15 ∨ i = 16) by lia;
  repeat (destruct H as [-> | H]); [ .. | subst i ].

Ltac listed H :=
  repeat (apply elem_of_cons in H as [-> | H]);
  [ .. | exfalso; exact (not_elem_of_nil _ H) ].

(** C4. The registry holds exactly 17 codes, their values are pairwise
    distinct and are 0, 1, ..., 16 in this order, and for every index [i]
    below 17 both the code at index [i] of [codeList] and the code of the
    prototype at index [i] of [statusList] have value [i]. *)
Theorem registry_indexed_by_value (i : Z) :
  0 ≤ i < 17 →
  length codeList = 17%nat ∧ length statusList = 17%nat
  ∧ NoDup (value <$> codeList)
  ∧ value <$> codeList = seqZ 0 17
  ∧ (∃ c, index codeList i = Returns c ∧ value c = i)
  ∧ (∃ s, index statusList i = Returns s ∧ value (code s) = i).
Proof.
  intros Hi.
  split; [reflexivity | ]. split; [reflexivity | ].
  split; [apply (bool_decide_unpack _); by vm_compute | ].
  split; [reflexivity | ].
  index_cases i; (split; eexists; split; reflexivity).
Qed.

Lemma registry_indexed_by_value_at_8 :
  0 ≤ 8 < 17 ∧
  (∃ c, index codeList 8 = Returns c ∧ value c = 8)
  ∧ (∃ s, index statusList 8 = Returns s ∧ value (code s) = 8).
Proof.
  split; [lia | ].
  pose proof (registry_indexed_by_value 8 ltac:(lia)) as H.
  exact (proj2 (proj2 (proj2 (proj2 H)))).
Defined.

(** ** The factories keyed by code and by code value *)

Lemma codeList_lookup (c : Code) :
  c ∈ codeList → index codeList (value c) = Returns c.
Proof. rewrite codeList_eq. intros H. listed H; reflexivity. Qed.

(** C7. For every canonical code [c], [NewWithCode c] returns a [Status]
    whose code is [c], and [NewWithCodeValue (Value c)] returns that same
    [Status] (both hand out the entry of [statusList] at index [value c]),
    leaving the heap as it was. *)
Theorem NewWithCode_NewWithCodeValue (c : Code) :
  c ∈ codeList →
  ∃ s, NewWithCode c = Returns s
       ∧ code s = c
       ∧ ∀ h, NewWithCodeValue (Value c) h = Returns (s, h).
Proof.
  rewrite codeList_eq. intros H. exists (newStatus c).
  listed H; (split; [reflexivity | split; [reflexivity | intros h; reflexivity]]).
Qed.

Lemma NewWithCode_NewWithCodeValue_Unauthenticated :
  CodeUnauthenticated ∈ codeList ∧
  ∃ s, NewWithCode CodeUnauthenticated = Returns s
       ∧ code s = CodeUnauthenticated
       ∧ ∀ h, NewWithCodeValue (Value CodeUnauthenticated) h = Returns (s, h).
Proof.
  assert (Hin : CodeUnauthenticated ∈ codeList).
  { rewrite codeList_eq. apply (bool_decide_unpack _). by vm_compute. }
  split; [exact Hin | ].
  exact (NewWithCode_NewWithCodeValue CodeUnauthenticated Hin).
Defined.

(** ** Retry advice *)

(** C6. The advice is [just_retry_failing_call] exactly for the code
    Unavailable, [not_retry_until_state_fixed] exactly for FailedPrecondition,
    [retry_at_higher_level] exactly for Aborted and ResourceExhausted, and
    [no_advice] exactly for every other code. *)
Theorem RetryAdvice_by_code (s : Status) :
  (Status_RetryAdvice s = JustRetryFailingCall ↔ code s = CodeUnavailable)
  ∧ (Status_RetryAdvice s = NotRetryUntilStateFixed
     ↔ code s = CodeFailedPrecondition)
  ∧ (Status_RetryAdvice s = RetryAtHigherLevel
     ↔ code s = CodeAborted ∨ code s = CodeResourceExhausted)
  ∧ (Status_RetryAdvice s = NoAdvice
     ↔ code s ≠ CodeUnavailable ∧ code s ≠ CodeFailedPrecondition
       ∧ code s ≠ CodeAborted ∧ code s ≠ CodeResourceExhausted).
Proof.
  unfold Status_RetryAdvice, JustRetryFailingCall, NotRetryUntilStateFixed,
    RetryAtHigherLevel, NoAdvice, CodeUnavailable, CodeFailedPrecondition,
    CodeAborted, CodeResourceExhausted.
  repeat case_bool_decide; repeat split; intros; try discriminate;
    try congruence;
    repeat match goal with
           | H : _ ∧ _ |- _ => destruct H
           | H : _ ∨ _ |- _ => destruct H
           | H : ¬ (_ ∨ _) |- _ => apply Decidable.not_or in H
           end;
    try congruence; tauto.
Qed.

(** ** The wire statuses *)

Lemma IsDefined_spec (v : Z) :
  http.IsDefined v = true
  ↔ v ∈ [200; 400; 401; 403; 404; 409; 429; 499; 500; 501; 503; 504].
Proof.
  unfold http.IsDefined. cbv zeta.
  destruct (_ !! _) eqn:E.
  - split; [intros _ | intros _; reflexivity].
    apply elem_of_list_to_map_2 in E.
    repeat (apply elem_of_cons in E as [E | E];
            [injection E as -> _; apply (bool_decide_unpack _); by vm_compute | ]).
    exfalso. exact (not_elem_of_nil _ E).
  - split; [discriminate | ]. intros H. listed H; vm_compute in E; discriminate.
Qed.

(** C8. Every canonical code [c] has a wire status [hs] in the code-to-wire
    table; [hs] is a defined wire status, and [NewByHTTPStatus] applied to
    its value returns the prototype of one code [rep], the entry of the
    wire-to-status table for [hs]. The representative [rep] is a canonical
    code with the same wire status as [c]; it need not be [c]
    (see [representative_not_identity]). *)
Theorem code_to_wire_and_back (c : Code) :
  c ∈ codeList →
  ∃ (hs : http.Status) (rep : Code),
    codeToHTTPStatus !! c = Some hs
    ∧ toHTTPStatus c = hs
    ∧ http.IsDefined (http.Code hs) = true
    ∧ httpStatusToOpStatus !! hs = Some (newStatus rep)
    ∧ (NewByHTTPStatus (http.Code hs)).2 = newStatus rep
    ∧ rep ∈ codeList
    ∧ codeToHTTPStatus !! rep = Some hs.
Proof.
  rewrite codeList_eq. intros H.
  listed H;
    (eexists _, _;
     split; [reflexivity | ]; split; [reflexivity | ];
     split; [reflexivity | ]; split; [reflexivity | ];
     split; [reflexivity | ];
     split; [apply (bool_decide_unpack _); by vm_compute | reflexivity]).
Qed.

Lemma code_to_wire_and_back_FailedPrecondition :
  CodeFailedPrecondition ∈ codeList ∧
  ∃ (hs : http.Status) (rep : Code),
    codeToHTTPStatus !! CodeFailedPrecondition = Some hs
    ∧ toHTTPStatus CodeFailedPrecondition = hs
    ∧ http.IsDefined (http.Code hs) = true
    ∧ httpStatusToOpStatus !! hs = Some (newStatus rep)
    ∧ (NewByHTTPStatus (http.Code hs)).2 = newStatus rep
    ∧ rep ∈ codeList
    ∧ codeToHTTPStatus !! rep = Some hs.
Proof.
  assert (Hin : CodeFailedPrecondition ∈ codeList).
  { rewrite codeList_eq. apply (bool_decide_unpack _). by vm_compute. }
  split; [exact Hin | ].
  exact (code_to_wire_and_back CodeFailedPrecondition Hin).
Defined.

(** The way back is lossy: FailedPrecondition goes to 400 and comes back as
    InvalidArgument. *)
Lemma representative_not_identity :
  toHTTPStatus CodeFailedPrecondition = 400
  ∧ (NewByHTTPStatus 400).2 = newStatus CodeInvalidArgument
  ∧ CodeInvalidArgument ≠ CodeFailedPrecondition.
Proof. split; [reflexivity | ]. split; [reflexivity | discriminate]. Qed.

(** C9. For every integer [v] that [http.IsDefined] rejects,
    [NewByHTTPStatus v] returns the Unknown prototype as it is (code Unknown,
    no case, empty description, no details) and writes nothing to the log.
    [http.IsDefined] alone decides: every [v] it accepts gets the entry of the
    wire-to-status table, whose code is never Unknown, and it accepts exactly
    the twelve wire statuses. *)
Theorem NewByHTTPStatus_admission (v : Z) :
  (http.IsDefined v = false →
   NewByHTTPStatus v = ([], newStatus CodeUnknown))
  ∧ (http.IsDefined v = true →
     ∃ st, httpStatusToOpStatus !! v = Some st
           ∧ (NewByHTTPStatus v).2 = st
           ∧ code st ≠ CodeUnknown)
  ∧ (http.IsDefined v = true
     ↔ v ∈ [200; 400; 401; 403; 404; 409; 429; 499; 500; 501; 503; 504]).
Proof.
  split; [ | split; [ | apply IsDefined_spec ] ].
  - intros H. unfold NewByHTTPStatus. rewrite H. reflexivity.
  - intros H. apply IsDefined_spec in H.
    listed H; (eexists; split; [reflexivity | split; [reflexivity | discriminate]]).
Qed.

Lemma NewByHTTPStatus_admission_999 :
  http.IsDefined 999 = false
  ∧ NewByHTTPStatus 999 = ([], newStatus CodeUnknown)
  ∧ code (NewByHTTPStatus 999).2 = CodeUnknown
  ∧ description (NewByHTTPStatus 999).2 = "".
Proof.
  assert (H : http.IsDefined 999 = false) by reflexivity.
  pose proof (proj1 (NewByHTTPStatus_admission 999) H) as E.
  split; [exact H | ]. split; [exact E | ].
  rewrite E. split; reflexivity.
Defined.

(** ** Descriptions *)

Lemma WithDescription_returns (s : Status) (text : string) (h : heap) :
  ∃ s' h', WithDescription s text h = Returns (s', h')
           ∧ description s' = strings_pkg.TrimSpace text
           ∧ code s' = code s
           ∧ theCase s' = theCase s.
Proof.
  unfold WithDescription. cbv zeta. case_bool_decide as Hd.
  - exists s, h. by rewrite Hd.
  - destruct (details s) as [d | ]; eexists _, _; (split; [reflexivity | done]).
Qed.

(** C10. For every [Status] [s], in every heap: [WithDescription] sets the
    description to the argument with leading and trailing white space
    removed, keeping code and case, so the text "  hi  " gives "hi";
    [AugmentDescription] with the empty string returns [s] itself and leaves
    the heap untouched; with "x" it gives the description "a", a line
    feed, "x" when [s] is described by "a", and "x" when [s] has no
    description. *)
Theorem description_derivations (s : Status) (h : heap) :
  (∀ text, ∃ s' h', WithDescription s text h = Returns (s', h')
                    ∧ description s' = strings_pkg.TrimSpace text
                    ∧ code s' = code s ∧ theCase s' = theCase s)
  ∧ (∃ s' h', WithDescription s "  hi  " h = Returns (s', h')
              ∧ description s' = "hi")
  ∧ AugmentDescription s "" h = Returns (s, h)
  ∧ (description s = "a" →
     ∃ s' h', AugmentDescription s "x" h = Returns (s', h')
              ∧ description s' = "a" +:+ newline +:+ "x"
              ∧ code s' = code s ∧ theCase s' = theCase s)
  ∧ (description s = "" →
     ∃ s' h', AugmentDescription s "x" h = Returns (s', h')
              ∧ description s' = "x"
              ∧ code s' = code s ∧ theCase s' = theCase s).
Proof.
  split; [intros text; apply WithDescription_returns | ].
  split.
  { destruct (WithDescription_returns s "  hi  " h) as (s' & h' & E & Hd & _).
    exists s', h'. split; [exact E | ]. rewrite Hd. reflexivity. }
  split; [reflexivity | ].
  split; intros Hs; unfold AugmentDescription; simpl; rewrite Hs; simpl.
  - destruct (WithDescription_returns s ("a" +:+ newline +:+ "x") h)
      as (s' & h' & E & Hd & Hc & Ht).
    exists s', h'. split; [exact E | ]. rewrite Hd. by split.
  - destruct (WithDescription_returns s "x" h) as (s' & h' & E & Hd & Hc & Ht).
    exists s', h'. split; [exact E | ]. rewrite Hd. by split.
Qed.

Lemma description_derivations_a :
  description (mkStatus CodeNotFound None "a" None) = "a"
  ∧ ∃ s' h',
      AugmentDescription (mkStatus CodeNotFound None "a" None) "x" []
      = Returns (s', h')
      ∧ description s' = "a" +:+ newline +:+ "x"
      ∧ code s' = CodeNotFound ∧ theCase s' = None.
Proof.
  split; [reflexivity | ].
  apply (description_derivations (mkStatus CodeNotFound None "a" None) []).
  reflexivity.
Defined.

(** ** White space and the message of an unknown code value *)

Lemma list_ascii_of_string_app (a b : string) :
  String.list_ascii_of_string (a +:+ b)
  = String.list_ascii_of_string a ++ String.list_ascii_of_string b.
Proof. induction a as [ | c a IH]; simpl; [reflexivity | by rewrite IH]. Qed.

(** A list whose first rune is not white space is left as it is. *)
Lemma trimFront_keep (isSp : list ascii → bool) (c : ascii) (l : list ascii) :
  isSp [c] = false →
  (∀ c2, isSp [c; c2] = false) →
  (∀ c2 c3, isSp [c; c2; c3] = false) →
  strings_pkg.trimFront isSp (c :: l) = c :: l.
Proof.
  intros H1 H2 H3. destruct l as [ | c2 [ | c3 r]]; simpl.
  - by rewrite H1.
  - by rewrite H1, H2.
  - by rewrite H1, H2, H3.
Qed.

(** A text that starts with the letter U and ends with a closing bracket has
    no white space to trim. *)
Lemma TrimSpace_U_bracket (m : string) :
  strings_pkg.TrimSpace (String "U" (m +:+ "]")) = String "U" (m +:+ "]").
Proof.
  unfold strings_pkg.TrimSpace. cbv zeta.
  assert (E : String.list_ascii_of_string (String "U" (m +:+ "]"))
              = ("U"%char :: String.list_ascii_of_string m) ++ ["]"%char]).
  { simpl. by rewrite list_ascii_of_string_app. }
  rewrite <- (String.string_of_list_ascii_of_string (String "U" (m +:+ "]")))
    at 2.
  rewrite E. clear E. f_equal.
  rewrite <- app_comm_cons.
  rewrite (trimFront_keep strings_pkg.isSpaceRune "U"%char);
    [ | reflexivity | reflexivity | reflexivity ].
  rewrite app_comm_cons, reverse_snoc.
  rewrite trimFront_keep.
  - by rewrite reverse_cons, reverse_involutive.
  - reflexivity.
  - intros c2. unfold strings_pkg.isSpaceRune. simpl.
    by rewrite andb_false_r.
  - intros c2 c3. unfold strings_pkg.isSpaceRune. simpl.
    by rewrite !andb_false_r.
Qed.

Lemma append_empty_r (s : string) : s +:+ "" = s.
Proof.
  induction s as [ | c s IH]; [reflexivity | ].
  change (String c (s +:+ "") = String c s). by rewrite IH.
Qed.

(** What [NewWithCodeValue] builds for a value outside the table: the
    Unknown code, a new empty detail map, and a description in which the
    value stands between brackets, because [WithDescriptionf] formats the
    slice of its operands rather than the operands. *)
Lemma NewWithCodeValue_out_of_range (v : Z) (h : heap) :
  v < 0 ∨ 17 ≤ v →
  NewWithCodeValue v h
  = Returns ({| code := CodeUnknown;
                theCase := None;
                description := "Unknown op status code: [" +:+ fmt.itoa v +:+ "]";
                details := Some (length h) |},
             h ++ [∅]).
Proof.
  intros Hv. unfold NewWithCodeValue.
  rewrite bool_decide_true by (change (length statusList) with 17%nat; lia).
  unfold WithDescriptionf.
  assert (E : fmt.Sprintf "Unknown op status code: %v" [ASlice [AInt v]]
              = String "U" (("nknown op status code: [" +:+ fmt.itoa v) +:+ "]")).
  { transitivity ("Unknown op status code: "
                  +:+ (("[" +:+ fmt.itoa v +:+ "]") +:+ ""));
      [reflexivity | ].
    rewrite append_empty_r. reflexivity. }
  rewrite E. unfold WithDescription. cbv zeta.
  rewrite TrimSpace_U_bracket.
  rewrite bool_decide_false by discriminate.
  reflexivity.
Qed.

(** C2, at the values -1 and 999. [NewWithCodeValue] does not panic and
    returns the code Unknown, but the description is "Unknown op status
    code: [-1]" (and "[999]"): the value is wrapped in brackets, so the
    description is not the text "Unknown op status code: -1" (or "999"). *)
Theorem NewWithCodeValue_brackets_value :
  (∀ h, ∃ s' h', NewWithCodeValue (-1) h = Returns (s', h')
                 ∧ code s' = CodeUnknown
                 ∧ description s' = "Unknown op status code: [-1]"
                 ∧ description s' ≠ "Unknown op status code: -1")
  ∧ (∀ h, ∃ s' h', NewWithCodeValue 999 h = Returns (s', h')
                   ∧ code s' = CodeUnknown
                   ∧ description s' = "Unknown op status code: [999]"
                   ∧ description s' ≠ "Unknown op status code: 999").
Proof.
  split; intros h; eexists _, _;
    (split; [apply NewWithCodeValue_out_of_range; lia | ]);
    (split; [reflexivity | split; [reflexivity | discriminate]]).
Qed.

(** ** Details *)

Lemma copy_loop_id (m : gmap string any) :
  map_fold (λ k v copy, <[k:=v]> copy) ∅ m = m.
Proof.
  apply (map_fold_weak_ind (λ r m, r = m)); [reflexivity | ].
  intros i x m' r _ ->. reflexivity.
Qed.

(** Every prototype has the nil map as its details. *)
Lemma statusList_details_nil (s : Status) : s ∈ statusList → details s = None.
Proof.
  rewrite statusList_eq. intros H. apply list_elem_of_fmap in H as (c & -> & _).
  reflexivity.
Qed.

Lemma index_elem_of {A} (l : list A) (i : Z) (a : A) :
  index l i = Returns a → a ∈ l.
Proof.
  unfold index. case_bool_decide; [discriminate | ].
  destruct (l !! Z.to_nat i) eqn:E; [ | discriminate].
  intros [= ->]. by eapply list_elem_of_lookup_2.
Qed.

(** [AddDetail] with a key that is not blank panics on every [Status] that
    [NewWithCode] returns. *)
Lemma AddDetail_prototype_panics (c : Code) (s : Status) (key : string)
    (v : any) (h : heap) :
  NewWithCode c = Returns s →
  strings_pkg.TrimSpace key ≠ "" →
  AddDetail s key v h = Panics "assignment to entry in nil map".
Proof.
  intros Hs Hk. apply index_elem_of, statusList_details_nil in Hs.
  unfold AddDetail. cbv zeta. rewrite bool_decide_false by done.
  by rewrite Hs.
Qed.

(** A key that trims to the empty string is ignored, whatever the details. *)
Lemma AddDetail_blank_key (s : Status) (key : string) (v : any) (h : heap) :
  strings_pkg.TrimSpace key = "" → AddDetail s key v h = Returns (tt, h).
Proof.
  intros Hk. unfold AddDetail. cbv zeta. by rewrite bool_decide_true.
Qed.

(** On a [Status] whose details are a map of the heap, [AddDetail] stores
    the value under the trimmed key and touches no other key. *)
Lemma AddDetail_stores (s : Status) (d : loc) (key : string) (v : any)
    (h : heap) :
  details s = Some d → (d < length h)%nat →
  strings_pkg.TrimSpace key ≠ "" →
  ∃ h', AddDetail s key v h = Returns (tt, h')
        ∧ entries h' d = <[strings_pkg.TrimSpace key := v]> (entries h d).
Proof.
  intros Hd Hlt Hk. unfold AddDetail. cbv zeta.
  rewrite bool_decide_false by done. rewrite Hd.
  eexists. split; [reflexivity | ].
  unfold entries, store. apply lookup_lt_is_Some in Hlt as [m Hm].
  by rewrite list_lookup_alter_eq, Hm.
Qed.

(** [WithDescription] with a description that differs hands the derived
    [Status] a new map with the entries of the old one. *)
Lemma WithDescription_copies_details (s : Status) (d : loc) (text : string)
    (h : heap) :
  details s = Some d → (d < length h)%nat →
  description s ≠ strings_pkg.TrimSpace text →
  ∃ s' h' d', WithDescription s text h = Returns (s', h')
              ∧ details s' = Some d'
              ∧ d' ≠ d
              ∧ entries h' d' = entries h d
              ∧ entries h' d = entries h d.
Proof.
  intros Hd Hlt Hne. unfold WithDescription. cbv zeta.
  rewrite bool_decide_false by done. rewrite Hd.
  unfold bind, copyDetails, alloc, ret. rewrite copy_loop_id.
  eexists _, _, _. split; [reflexivity | ]. split; [reflexivity | ].
  unfold entries. split; [lia | ]. split.
  - by rewrite list_lookup_middle.
  - by rewrite lookup_app_l.
Qed.

(** The scenario of a status that owns a map: NotFound described as "gone",
    the detail added under a padded key, then a copy described as
    "missing". The copy has a map of its own (address 1) that carries the
    detail under the trimmed key. *)
Lemma detail_survives_new_description :
  (let! s1 := WithDescription StatusNotFound "gone" in
   let! _ := AddDetail s1 " resource " (AString "file.txt") in
   let! s2 := WithDescription s1 "missing" in
   ret (details s1, details s2)) []
  = Returns ((Some 0%nat, Some 1%nat),
             [ {[ "resource" := AString "file.txt" ]};
               {[ "resource" := AString "file.txt" ]} ]).
Proof. reflexivity. Qed.

(** A copy made with the description unchanged shares the map of its
    original: a detail added through the copy is seen through both. *)
Lemma same_description_shares_details :
  (let! s1 := WithDescription StatusNotFound "gone" in
   let! s2 := WithDescription s1 " gone " in
   let! _ := AddDetail s2 "resource" (AString "file.txt") in
   ret (details s1, details s2)) []
  = Returns ((Some 0%nat, Some 0%nat),
             [ {[ "resource" := AString "file.txt" ]} ]).
Proof. reflexivity. Qed.

(** C3, at the status of NotFound. [NewWithCode] returns the prototype,
    whose details are the nil map; the key "resource" is not blank; and
    [AddDetail] on that status panics, in every heap, instead of storing the
    entry: no empty map is put in place of the nil one. *)
Theorem AddDetail_NotFound_prototype_panics :
  NewWithCode CodeNotFound = Returns StatusNotFound
  ∧ details StatusNotFound = None
  ∧ strings_pkg.TrimSpace "resource" = "resource"
  ∧ ∀ h, AddDetail StatusNotFound "resource" (AString "file.txt") h
         = Panics "assignment to entry in nil map".
Proof.
  split; [reflexivity | ]. split; [reflexivity | ]. split; [reflexivity | ].
  intros h. reflexivity.
Qed.

(** ** The causal error *)

Import operror.

(** Only the pointer type has the [Error] method, so only [*OpError]
    implements [error]. *)
Lemma OpError_not_an_error :
  implementsError false = false ∧ implementsError true = true.
Proof. split; reflexivity. Qed.

Ltac kind_in := repeat (first [apply list_elem_of_here | apply list_elem_of_further]).
Ltac kind_not_in H :=
  repeat (apply elem_of_cons in H as [H | H]; [discriminate H | ]);
  exfalso; exact (not_elem_of_nil _ H).

Lemma IsNil_iff (err : error) :
  IsNil err = true
  ↔ err = nilError
    ∨ Value_Kind (ValueOf err) = Invalid
    ∨ (Value_Kind (ValueOf err)
         ∈ [Chan; Func; Map; Pointer; UnsafePointer; Interface; Slice]
       ∧ Value_IsNil (ValueOf err) = true).
Proof.
  destruct err as [ | [e | ] | k isnil inner].
  - split; [by left | reflexivity].
  - split; [discriminate | ].
    intros [H | [H | [_ H]]]; discriminate.
  - split; [ | reflexivity]. intros _. right. right. split; [kind_in | reflexivity].
  - destruct k, isnil; cbn;
      (split;
       [ intros H; first [discriminate H | right; left; reflexivity
                          | right; right; split; [kind_in | reflexivity] ]
       | intros [H | [H | [H1 H2]]];
         first [reflexivity | discriminate H | discriminate H2
                | kind_not_in H1] ]).
Qed.

Lemma chainLoop_unfold (cause : error) :
  chainLoop cause
  = if IsNil cause then Returns None
    else match AsOpError cause with
         | Panics msg => Panics msg
         | Returns (true, opErr) => Returns (OpError_Status opErr)
         | Returns (false, _) => chainLoop (Unwrap cause)
         end.
Proof. destruct cause; reflexivity. Qed.

(** C5. [IsNil err] holds exactly when [err] is the nil interface, or the
    kind of its dynamic value is Invalid, or that kind is one of channel,
    function, map, pointer, unsafe pointer, interface and slice and the value
    is nil; it is false for every other error. An error that [IsNil] accepts
    is absent for [StatusFromErrChain], which returns nil for it. *)
Theorem IsNil_kind_by_kind (err : error) :
  (IsNil err = true
   ↔ err = nilError
     ∨ Value_Kind (ValueOf err) = Invalid
     ∨ (Value_Kind (ValueOf err)
          ∈ [Chan; Func; Map; Pointer; UnsafePointer; Interface; Slice]
        ∧ Value_IsNil (ValueOf err) = true))
  ∧ (IsNil err = true → StatusFromErrChain err = Returns None).
Proof.
  split; [apply IsNil_iff | ].
  intros H. unfold StatusFromErrChain. by rewrite H.
Qed.

Lemma IsNil_kind_by_kind_nil_pointer :
  IsNil (ptrOpError None) = true
  ∧ StatusFromErrChain (ptrOpError None) = Returns None.
Proof.
  assert (H : IsNil (ptrOpError None) = true) by reflexivity.
  split; [exact H | ].
  exact (proj2 (IsNil_kind_by_kind (ptrOpError None)) H).
Defined.

(** [errors.As] with the address of an [OpError] struct as its target
    panics on every error that is not the nil interface. *)
Lemma AsOpError_panics (err : error) :
  err ≠ nilError →
  AsOpError err = Panics "errors: *target must be interface or implement error".
Proof. destruct err; [done | reflexivity | reflexivity]. Qed.

(** Hence [StatusFromErrChain] panics on every error that [IsNil] rejects,
    whether or not its chain holds an [OpError]. *)
Lemma StatusFromErrChain_panics (err : error) :
  IsNil err = false →
  StatusFromErrChain err
  = Panics "errors: *target must be interface or implement error".
Proof.
  intros H. unfold StatusFromErrChain. rewrite H. cbv zeta.
  rewrite chainLoop_unfold, H, AsOpError_panics; [reflexivity | ].
  intros ->. discriminate.
Qed.

(** C1, on four chains. The nil error gives nil. A [*OpError] carrying the
    status NotFound makes [StatusFromErrChain] panic inside [errors.As]
    instead of returning that status; so does a chain of two wrapping errors
    around that [*OpError], and so does a single error that wraps nothing,
    for which nil was to be returned. *)
Theorem StatusFromErrChain_panics_on_chains :
  StatusFromErrChain nilError = Returns None
  ∧ StatusFromErrChain (ptrOpError (Some (NewWithStatus StatusNotFound)))
    = Panics "errors: *target must be interface or implement error"
  ∧ StatusFromErrChain
      (dynError Pointer false
         (dynError Pointer false
            (ptrOpError (Some (NewWithStatus StatusNotFound)))))
    = Panics "errors: *target must be interface or implement error"
  ∧ StatusFromErrChain (dynError Pointer false nilError)
    = Panics "errors: *target must be interface or implement error".
Proof. repeat split; reflexivity. Qed.

(** * Further properties *)

(** ** White space *)

Lemma trimFront_noLeadingSpace (isSp : list ascii → bool) (l : list ascii) :
  noLeadingSpace isSp (strings_pkg.trimFront isSp l).
Proof.
  remember (length l) as n eqn:Hn.
  assert (Hle : (length l ≤ n)%nat) by lia. clear Hn.
  revert l Hle. induction n as [ | n IH]; intros l Hle.
  { destruct l; [exact I | simpl in Hle; lia]. }
  destruct l as [ | c1 r1]; [exact I | ]. simpl in Hle. simpl.
  destruct (isSp [c1]) eqn:E1; [apply IH; lia | ].
  destruct r1 as [ | c2 r2]; [by split | ]. simpl in Hle.
  destruct (isSp [c1; c2]) eqn:E2; [apply IH; lia | ].
  destruct r2 as [ | c3 r3]; [by repeat split | ]. simpl in Hle.
  destruct (isSp [c1; c2; c3]) eqn:E3; [apply IH; lia | ].
  by repeat split.
Qed.

Lemma trimFront_fixed (isSp : list ascii → bool) (l : list ascii) :
  noLeadingSpace isSp l → strings_pkg.trimFront isSp l = l.
Proof.
  destruct l as [ | c1 [ | c2 [ | c3 r3]]]; simpl; [done | | | ].
  - by intros [-> _].
  - by intros (-> & -> & _).
  - by intros (-> & -> & ->).
Qed.

Lemma trimFront_suffix (isSp : list ascii → bool) (l : list ascii) :
  strings_pkg.trimFront isSp l `suffix_of` l.
Proof.
  remember (length l) as n eqn:Hn.
  assert (Hle : (length l ≤ n)%nat) by lia. clear Hn.
  revert l Hle. induction n as [ | n IH]; intros l Hle.
  { destruct l; [done | simpl in Hle; lia]. }
  destruct l as [ | c1 r1]; [done | ]. simpl in Hle. simpl.
  destruct (isSp [c1]); [apply suffix_cons_r, IH; lia | ].
  destruct r1 as [ | c2 r2]; [done | ]. simpl in Hle.
  destruct (isSp [c1; c2]); [do 2 apply suffix_cons_r; apply IH; lia | ].
  destruct r2 as [ | c3 r3]; [done | ]. simpl in Hle.
  destruct (isSp [c1; c2; c3]); [do 3 apply suffix_cons_r; apply IH; lia | ].
  done.
Qed.

Lemma noLeadingSpace_prefix (isSp : list ascii → bool) (p l : list ascii) :
  p `prefix_of` l → noLeadingSpace isSp l → noLeadingSpace isSp p.
Proof.
  intros [k ->].
  destruct p as [ | c1 [ | c2 [ | c3 r3]]]; simpl; [done | | | ].
  - by intros [-> _].
  - destruct k; simpl; by intros (-> & -> & _).
  - by intros (-> & -> & ->).
Qed.

(** Trimming a trimmed text changes nothing. *)
Lemma TrimSpace_trimmed (text : string) : trimmed (strings_pkg.TrimSpace text).
Proof.
  unfold trimmed, strings_pkg.TrimSpace. cbv zeta.
  set (a := strings_pkg.trimFront strings_pkg.isSpaceRune
              (String.list_ascii_of_string text)).
  set (isSp' := λ bs : list ascii, strings_pkg.isSpaceRune (reverse bs)).
  set (b := strings_pkg.trimFront isSp' (reverse a)).
  rewrite String.list_ascii_of_string_of_list_ascii.
  assert (Ha : noLeadingSpace strings_pkg.isSpaceRune a)
    by apply trimFront_noLeadingSpace.
  assert (Hb : noLeadingSpace isSp' b) by apply trimFront_noLeadingSpace.
  assert (Hp : reverse b `prefix_of` a).
  { apply prefix_suffix_reverse. rewrite reverse_involutive.
    apply trimFront_suffix. }
  rewrite (trimFront_fixed _ (reverse b))
    by (eapply noLeadingSpace_prefix; eauto).
  rewrite reverse_involutive. by rewrite (trimFront_fixed _ b).
Qed.

(** ** Deriving statuses *)

Lemma WithDescription_inv (s : Status) (text : string) (h : heap)
    (s' : Status) (h' : heap) :
  WithDescription s text h = Returns (s', h') →
  description s' = strings_pkg.TrimSpace text
  ∧ code s' = code s ∧ theCase s' = theCase s.
Proof.
  intros E. destruct (WithDescription_returns s text h) as (s1 & h1 & E1 & H).
  rewrite E in E1. by injection E1 as <- <-.
Qed.

(** X1. The description of a status that [WithDescription] returns is
    trimmed, and deriving once more with the same text, or with the
    description now held, returns that status again and leaves the heap as
    it is: no second map is made. *)
Theorem WithDescription_again (s : Status) (text : string) (h : heap)
    (s' : Status) (h' : heap) :
  WithDescription s text h = Returns (s', h') →
  trimmed (description s')
  ∧ WithDescription s' text h' = Returns (s', h')
  ∧ WithDescription s' (description s') h' = Returns (s', h').
Proof.
  intros E. apply WithDescription_inv in E as (Hd & _ & _).
  assert (Ht : trimmed (description s')).
  { rewrite Hd. apply TrimSpace_trimmed. }
  split; [exact Ht | ]. unfold WithDescription. cbv zeta.
  split; rewrite bool_decide_true; try reflexivity; [exact Hd | ].
  symmetry. exact Ht.
Qed.

Lemma WithDescription_again_hi :
  WithDescription StatusNotFound "  hi  " []
  = Returns (mkStatus CodeNotFound None "hi" (Some 0%nat), [∅])
  ∧ trimmed "hi"
  ∧ WithDescription (mkStatus CodeNotFound None "hi" (Some 0%nat)) "  hi  " [∅]
    = Returns (mkStatus CodeNotFound None "hi" (Some 0%nat), [∅]).
Proof.
  assert (E : WithDescription StatusNotFound "  hi  " []
              = Returns (mkStatus CodeNotFound None "hi" (Some 0%nat), [∅]))
    by reflexivity.
  split; [exact E | ].
  destruct (WithDescription_again _ _ _ _ _ E) as (Ht & E2 & _).
  split; [exact Ht | exact E2].
Defined.

Lemma AddDetail_frame (s : Status) (d : loc) (key : string) (v : any)
    (h : heap) :
  details s = Some d → (d < length h)%nat →
  strings_pkg.TrimSpace key ≠ "" →
  ∃ h', AddDetail s key v h = Returns (tt, h')
        ∧ length h' = length h
        ∧ entries h' d = <[strings_pkg.TrimSpace key := v]> (entries h d)
        ∧ ∀ d', d' ≠ d → entries h' d' = entries h d'.
Proof.
  intros Hd Hlt Hk. unfold AddDetail. cbv zeta.
  rewrite bool_decide_false by done. rewrite Hd. unfold store.
  eexists. split; [reflexivity | ]. split; [by rewrite length_alter | ].
  unfold entries. split.
  - apply lookup_lt_is_Some in Hlt as [m Hm].
    by rewrite list_lookup_alter_eq, Hm.
  - intros d' Hne. by rewrite list_lookup_alter_ne.
Qed.

(** X2. On a status whose details are a map of the heap, [AddDetail] with a
    key that is not blank returns, binds the trimmed key to the value in
    that map, leaves every other key of that map and every other map as they
    were, and makes no map. *)
Theorem AddDetail_writes_one_entry (s : Status) (d : loc) (key : string)
    (v : any) (h : heap) :
  details s = Some d → (d < length h)%nat →
  strings_pkg.TrimSpace key ≠ "" →
  ∃ h', AddDetail s key v h = Returns (tt, h')
        ∧ length h' = length h
        ∧ entries h' d !! strings_pkg.TrimSpace key = Some v
        ∧ (∀ k, k ≠ strings_pkg.TrimSpace key →
                entries h' d !! k = entries h d !! k)
        ∧ (∀ d', d' ≠ d → entries h' d' = entries h d').
Proof.
  intros Hd Hlt Hk.
  destruct (AddDetail_frame s d key v h Hd Hlt Hk) as (h' & E & Hlen & He & Hf).
  exists h'. split; [exact E | ]. split; [exact Hlen | ].
  rewrite He. split; [apply lookup_insert_eq | ].
  split; [ | exact Hf]. intros k Hne. by rewrite lookup_insert_ne.
Qed.

Lemma AddDetail_writes_one_entry_padded :
  ∃ h', AddDetail (mkStatus CodeNotFound None "gone" (Some 0%nat))
          " resource " (AString "file.txt") [∅] = Returns (tt, h')
        ∧ length h' = 1%nat
        ∧ entries h' 0%nat !! "resource" = Some (AString "file.txt").
Proof.
  destruct (AddDetail_writes_one_entry
              (mkStatus CodeNotFound None "gone" (Some 0%nat)) 0%nat
              " resource " (AString "file.txt") [∅])
    as (h' & E & Hlen & Hk & _);
    [reflexivity | simpl; lia | discriminate | ].
  exists h'. split; [exact E | ]. split; [exact Hlen | exact Hk].
Defined.

(** X3. When the trimmed text differs from the description held, the status
    [WithDescription] returns owns a map of its own with the entries of the
    original: a detail then added to the derived status reaches that map
    only, and the entries of the original stay as they were. *)
Theorem WithDescription_isolates_details (s : Status) (d : loc)
    (text key : string) (v : any) (h : heap) :
  details s = Some d → (d < length h)%nat →
  description s ≠ strings_pkg.TrimSpace text →
  strings_pkg.TrimSpace key ≠ "" →
  ∃ s' h1 h2 d',
    WithDescription s text h = Returns (s', h1)
    ∧ details s' = Some d' ∧ d' ≠ d
    ∧ AddDetail s' key v h1 = Returns (tt, h2)
    ∧ entries h2 d' = <[strings_pkg.TrimSpace key := v]> (entries h d)
    ∧ entries h2 d = entries h d.
Proof.
  intros Hd Hlt Hne Hk.
  destruct (WithDescription_copies_details s d text h Hd Hlt Hne)
    as (s' & h1 & d' & E & Hd' & Hdd & He' & He).
  assert (Hlt' : (d' < length h1)%nat).
  { revert E Hd'. unfold WithDescription. cbv zeta.
    rewrite bool_decide_false by done. rewrite Hd.
    unfold bind, copyDetails, alloc, ret. intros [= <- <-]. simpl.
    intros [= <-]. rewrite length_app. simpl. lia. }
  destruct (AddDetail_frame s' d' key v h1 Hd' Hlt' Hk)
    as (h2 & E2 & _ & He2 & Hf).
  exists s', h1, h2, d'. split; [exact E | ]. split; [exact Hd' | ].
  split; [exact Hdd | ]. split; [exact E2 | ].
  split; [by rewrite He2, He' | ]. rewrite Hf by done. exact He.
Qed.

Lemma WithDescription_isolates_details_missing :
  ∃ s' h1 h2 d',
    WithDescription (mkStatus CodeNotFound None "gone" (Some 0%nat))
      "missing" [ {[ "a" := AInt 1 ]} ] = Returns (s', h1)
    ∧ details s' = Some d' ∧ d' ≠ 0%nat
    ∧ AddDetail s' "resource" (AString "file.txt") h1 = Returns (tt, h2)
    ∧ entries h2 d'
      = <[ "resource" := AString "file.txt" ]> {[ "a" := AInt 1 ]}
    ∧ entries h2 0%nat = {[ "a" := AInt 1 ]}.
Proof.
  assert (H1 : (0 < length [ ({[ "a" := AInt 1 ]} : gmap string any) ])%nat)
    by (simpl; lia).
  assert (H2 : "gone" ≠ strings_pkg.TrimSpace "missing")
    by (intros E; vm_compute in E; discriminate E).
  assert (H3 : strings_pkg.TrimSpace "resource" ≠ "")
    by (intros E; vm_compute in E; discriminate E).
  exact (WithDescription_isolates_details
           (mkStatus CodeNotFound None "gone" (Some 0%nat)) 0%nat
           "missing" "resource" (AString "file.txt") [ {[ "a" := AInt 1 ]} ]
           eq_refl H1 H2 H3).
Defined.

(** ** Details in bulk *)

Lemma AddDetail_blank (s : Status) (key : string) (v : any) (h : heap) :
  blankKey key = true → AddDetail s key v h = Returns (tt, h).
Proof.
  unfold blankKey. intros Hk. apply bool_decide_eq_true in Hk.
  by apply AddDetail_blank_key.
Qed.

Lemma AddDetail_insert (s : Status) (d : loc) (key : string) (v : any)
    (h : heap) :
  details s = Some d → (d < length h)%nat → blankKey key = false →
  AddDetail s key v h
  = Returns (tt, <[d := <[strings_pkg.TrimSpace key := v]> (entries h d)]> h).
Proof.
  unfold blankKey. intros Hd Hlt Hk. unfold AddDetail. cbv zeta.
  rewrite Hk, Hd. unfold store. do 2 f_equal.
  apply lookup_lt_is_Some in Hlt as [m Hm]. unfold entries. rewrite Hm. simpl.
  apply list_eq. intros j. destruct (decide (d = j)) as [<- | Hne].
  - rewrite list_lookup_alter_eq, Hm, list_lookup_insert_eq; [done | ].
    by eapply lookup_lt_Some.
  - by rewrite list_lookup_alter_ne, list_lookup_insert_ne.
Qed.

Lemma written_cons (m : gmap string any) (key : string) (v : any)
    (rest : list (string * any)) :
  written m ((key, v) :: rest)
  = written (if blankKey key then m
             else <[strings_pkg.TrimSpace key := v]> m) rest.
Proof. reflexivity. Qed.

Lemma AddDetails_insert (s : Status) (d : loc) (visited : list (string * any))
    (h : heap) :
  details s = Some d → (d < length h)%nat →
  AddDetails s visited h
  = Returns (tt, <[d := written (entries h d) visited]> h).
Proof.
  intros Hd. revert h. induction visited as [ | [key v] rest IH]; intros h Hlt.
  - simpl. unfold ret, written. simpl. do 2 f_equal. symmetry.
    apply lookup_lt_is_Some in Hlt as [m Hm]. unfold entries. rewrite Hm.
    by apply list_insert_id.
  - rewrite written_cons. cbn [AddDetails]. unfold bind.
    destruct (blankKey key) eqn:Hk.
    + rewrite AddDetail_blank by done. by rewrite IH.
    + rewrite (AddDetail_insert s d) by done.
      rewrite IH by (by rewrite length_insert). do 2 f_equal.
      unfold entries at 1. rewrite list_lookup_insert_eq by done. simpl.
      by rewrite list_insert_insert_eq.
Qed.

(** X4. On a status whose details are the nil map (every prototype),
    [AddDetails] returns without touching the heap when every key it is
    given is blank, in particular for an empty or nil argument, and panics
    as soon as one key is not blank. *)
Theorem AddDetails_on_nil_map (s : Status) (visited : list (string * any))
    (h : heap) :
  details s = None →
  AddDetails s visited h
  = if forallb (λ kv, blankKey kv.1) visited then Returns (tt, h)
    else Panics "assignment to entry in nil map".
Proof.
  intros Hd. induction visited as [ | [key v] rest IH]; [reflexivity | ].
  simpl. unfold bind. destruct (blankKey key) eqn:Hk; simpl.
  - rewrite AddDetail_blank by done. exact IH.
  - unfold AddDetail. cbv zeta. unfold blankKey in Hk. by rewrite Hk, Hd.
Qed.

Lemma AddDetails_on_nil_map_NotFound :
  AddDetails StatusNotFound [("  ", AInt 1); ("resource", AInt 2)] []
  = Panics "assignment to entry in nil map"
  ∧ AddDetails StatusNotFound [("  ", AInt 1)] [] = Returns (tt, []).
Proof.
  split.
  - exact (AddDetails_on_nil_map StatusNotFound
             [("  ", AInt 1); ("resource", AInt 2)] [] eq_refl).
  - exact (AddDetails_on_nil_map StatusNotFound [("  ", AInt 1)] [] eq_refl).
Defined.

Lemma written_lookup_other (m : gmap string any)
    (visited : list (string * any)) (k : string) :
  k ∉ trimmedKeys visited → written m visited !! k = m !! k.
Proof.
  revert m. induction visited as [ | [key v] rest IH]; intros m Hk;
    [reflexivity | ].
  rewrite written_cons. unfold trimmedKeys in Hk. cbn [omap list_omap] in Hk.
  fold (trimmedKeys rest) in Hk. cbn [fst] in Hk.
  destruct (blankKey key); [by apply IH | ].
  apply not_elem_of_cons in Hk as [Hne Hk].
  rewrite IH by done. by rewrite lookup_insert_ne.
Qed.

(** X5. On a status whose details are a map of the heap, [AddDetails] never
    panics: it writes each entry whose key is not blank under the trimmed
    key, a later entry over an earlier one with the same trimmed key, leaves
    the keys it does not write and all other maps as they were, and makes no
    map. *)
Theorem AddDetails_on_map (s : Status) (d : loc)
    (visited : list (string * any)) (h : heap) :
  details s = Some d → (d < length h)%nat →
  ∃ h', AddDetails s visited h = Returns (tt, h')
        ∧ length h' = length h
        ∧ entries h' d = written (entries h d) visited
        ∧ (∀ k, k ∉ trimmedKeys visited →
                entries h' d !! k = entries h d !! k)
        ∧ (∀ d', d' ≠ d → entries h' d' = entries h d').
Proof.
  intros Hd Hlt. eexists. split; [by apply AddDetails_insert | ].
  split; [by rewrite length_insert | ].
  assert (He : entries (<[d := written (entries h d) visited]> h) d
               = written (entries h d) visited).
  { unfold entries at 1. by rewrite list_lookup_insert_eq. }
  rewrite He. split; [reflexivity | ]. split.
  - intros k Hk. by apply written_lookup_other.
  - intros d' Hne. unfold entries. by rewrite list_lookup_insert_ne.
Qed.

Lemma AddDetails_on_map_last_wins :
  ∃ h', AddDetails (mkStatus CodeNotFound None "gone" (Some 0%nat))
          [("a", AInt 1); (" a ", AInt 2); ("", AInt 3)] [∅]
        = Returns (tt, h')
        ∧ entries h' 0%nat = {[ "a" := AInt 2 ]}.
Proof.
  assert (H1 : (0 < length [ (∅ : gmap string any) ])%nat) by (simpl; lia).
  destruct (AddDetails_on_map
              (mkStatus CodeNotFound None "gone" (Some 0%nat)) 0%nat
              [("a", AInt 1); (" a ", AInt 2); ("", AInt 3)] [∅] eq_refl H1)
    as (h' & E & _ & He & _).
  exists h'. split; [exact E | ]. rewrite He. reflexivity.
Defined.

Lemma written_step_comm (m : gmap string any) (a b : string * any) :
  (blankKey a.1 = false → blankKey b.1 = false →
   strings_pkg.TrimSpace a.1 ≠ strings_pkg.TrimSpace b.1) →
  written (written m [a]) [b] = written (written m [b]) [a].
Proof.
  unfold written. simpl. intros Hne.
  destruct (blankKey a.1), (blankKey b.1); try reflexivity.
  apply insert_insert_ne. intros E. by apply Hne.
Qed.

Lemma written_permutation (m : gmap string any)
    (visited visited' : list (string * any)) :
  visited ≡ₚ visited' → NoDup (trimmedKeys visited) →
  written m visited = written m visited'.
Proof.
  intros Hp. revert m.
  induction Hp as [ | x l l' Hp IH | x y l | l l' l'' Hp1 IH1 Hp2 IH2 ];
    intros m Hnd.
  - reflexivity.
  - unfold written in *. simpl. apply IH.
    unfold trimmedKeys in *. simpl in Hnd.
    destruct (blankKey x.1); [done | ]. simpl in Hnd.
    by apply NoDup_cons in Hnd as [_ ?].
  - change (written (written (written m [y]) [x]) l
            = written (written (written m [x]) [y]) l).
    f_equal. apply written_step_comm. intros Hy Hx E.
    unfold trimmedKeys in Hnd. simpl in Hnd. rewrite Hy, Hx in Hnd. simpl in Hnd.
    apply NoDup_cons in Hnd as [Hin _]. apply Hin. rewrite E. left.
  - rewrite IH1 by done. apply IH2.
    unfold trimmedKeys in *. by rewrite <- Hp1.
Qed.

(** X6. When the keys that are not blank have pairwise distinct trimmed
    forms, the order in which the range loop of [AddDetails] yields the
    entries does not matter: any two orders give the same heap. *)
Theorem AddDetails_order_irrelevant (s : Status) (d : loc)
    (visited visited' : list (string * any)) (h : heap) :
  details s = Some d → (d < length h)%nat →
  visited ≡ₚ visited' → NoDup (trimmedKeys visited) →
  AddDetails s visited h = AddDetails s visited' h.
Proof.
  intros Hd Hlt Hp Hnd. rewrite !(AddDetails_insert s d) by done.
  by rewrite (written_permutation _ visited visited').
Qed.

Lemma AddDetails_order_irrelevant_two :
  AddDetails (mkStatus CodeNotFound None "gone" (Some 0%nat))
    [("a", AInt 1); (" b", AInt 2)] [∅]
  = AddDetails (mkStatus CodeNotFound None "gone" (Some 0%nat))
      [(" b", AInt 2); ("a", AInt 1)] [∅].
Proof.
  assert (H1 : (0 < length [ (∅ : gmap string any) ])%nat) by (simpl; lia).
  assert (H2 : NoDup (trimmedKeys [("a", AInt 1); (" b", AInt 2)])).
  { apply (bool_decide_unpack _). by vm_compute. }
  exact (AddDetails_order_irrelevant
           (mkStatus CodeNotFound None "gone" (Some 0%nat)) 0%nat
           [("a", AInt 1); (" b", AInt 2)] [(" b", AInt 2); ("a", AInt 1)] [∅]
           eq_refl H1 (perm_swap _ _ _) H2).
Defined.

(** With two keys that trim to the same key the order does matter. *)
Lemma AddDetails_order_matters :
  AddDetails (mkStatus CodeNotFound None "gone" (Some 0%nat))
    [("a", AInt 1); (" a", AInt 2)] [∅]
  ≠ AddDetails (mkStatus CodeNotFound None "gone" (Some 0%nat))
      [(" a", AInt 2); ("a", AInt 1)] [∅].
Proof.
  assert (H1 : (0 < length [ (∅ : gmap string any) ])%nat) by (simpl; lia).
  rewrite !(AddDetails_insert
              (mkStatus CodeNotFound None "gone" (Some 0%nat)) 0%nat _ _
              eq_refl H1).
  intros E.
  apply (f_equal (λ o : outcome (unit * heap),
                    match o with
                    | Returns (_, h') => entries h' 0%nat !! "a"
                    | Panics _ => None
                    end)) in E.
  vm_compute in E. discriminate E.
Qed.

(** ** Cases *)




(** ** Descriptions stay trimmed *)

Lemma trimmed_empty : trimmed "".
Proof. reflexivity. Qed.

Lemma statusList_trimmed (s : Status) :
  s ∈ statusList → trimmed (description s).
Proof.
  rewrite statusList_eq. intros H. apply list_elem_of_fmap in H as (c & -> & _).
  apply trimmed_empty.
Qed.

Lemma WithCaseAndDesc_inv (s : Status) (c : option Case) (text : string)
    (h : heap) (s' : Status) (h' : heap) :
  WithCaseAndDesc s c text h = Returns (s', h') →
  description s' = strings_pkg.TrimSpace text.
Proof.
  unfold WithCaseAndDesc. cbv zeta. case_bool_decide as Hc.
  - intros [= <- _]. by destruct Hc.
  - destruct (details s); unfold bind, copyDetails, alloc, ret;
      by intros [= <- _].
Qed.

(** X9. Trimming the description of any status a factory or a derivation
    returns changes nothing. The factories and the derivations that set a
    description establish this whatever the receiver; [WithCase] and
    [AugmentDescription] keep it when the receiver has it. *)
Theorem descriptions_stay_trimmed :
  (∀ c s, NewWithCode c = Returns s → trimmed (description s))
  ∧ (∀ v h s h', NewWithCodeValue v h = Returns (s, h') →
                 trimmed (description s))
  ∧ (∀ v, trimmed (description (NewByHTTPStatus v).2))
  ∧ (∀ s text h s' h', WithDescription s text h = Returns (s', h') →
                       trimmed (description s'))
  ∧ (∀ s c text h s' h', WithCaseAndDesc s c text h = Returns (s', h') →
                         trimmed (description s'))
  ∧ (∀ s c, trimmed (description s) → trimmed (description (WithCase s c)))
  ∧ (∀ s extra h s' h', trimmed (description s) →
                        AugmentDescription s extra h = Returns (s', h') →
                        trimmed (description s')).
Proof.
  assert (HW : ∀ s text h s' h', WithDescription s text h = Returns (s', h') →
                                 trimmed (description s')).
  { intros s text h s' h' E. apply WithDescription_inv in E as (-> & _).
    apply TrimSpace_trimmed. }
  split; [ | split; [ | split; [ | split; [exact HW | split; [ | split]]]]].
  - intros c s E. by apply statusList_trimmed, (index_elem_of _ (value c)).
  - intros v h s h'. unfold NewWithCodeValue. case_bool_decide.
    + apply HW.
    + unfold lift. destruct (index statusList v) as [s0 | ] eqn:E;
        [ | discriminate]. intros [= <- <-].
      by apply statusList_trimmed, (index_elem_of _ v).
  - intros v. unfold NewByHTTPStatus.
    destruct (http.IsDefined v); simpl; [ | apply trimmed_empty].
    destruct (httpStatusToOpStatus !! v) as [st | ] eqn:E;
      [ | apply trimmed_empty]. simpl.
    apply elem_of_list_to_map_2 in E.
    repeat (apply elem_of_cons in E as [E | E];
            [injection E as _ ->; apply trimmed_empty | ]).
    exfalso. exact (not_elem_of_nil _ E).
  - intros s c text h s' h' E. apply WithCaseAndDesc_inv in E as ->.
    apply TrimSpace_trimmed.
  - intros s c Ht. unfold WithCase. by case_bool_decide.
  - intros s extra h s' h' Ht. unfold AugmentDescription.
    case_bool_decide; [by intros [= <- <-] | apply HW].
Qed.

(** ** The rendering of a status *)

(** X10. After [WithDescription] the rendering of the status is the code
    alone when the text is blank, and otherwise the code, a colon and a
    space, and the trimmed text. *)
Theorem ToErrorCondition_after_WithDescription (s : Status) (text : string)
    (h : heap) (s' : Status) (h' : heap) :
  WithDescription s text h = Returns (s', h') →
  ToErrorCondition s'
  = if blankKey text then Code_String (code s)
    else Code_String (code s) +:+ ": " +:+ strings_pkg.TrimSpace text.
Proof.
  intros E. apply WithDescription_inv in E as (Hd & Hc & _).
  unfold ToErrorCondition, blankKey. by rewrite Hd, Hc.
Qed.

Lemma ToErrorCondition_after_WithDescription_NotFound :
  (∃ s' h', WithDescription StatusNotFound "  missing " [] = Returns (s', h')
            ∧ ToErrorCondition s' = "NotFound(5): missing")
  ∧ (∃ s' h', WithDescription StatusNotFound "   " [] = Returns (s', h')
              ∧ ToErrorCondition s' = "NotFound(5)").
Proof.
  assert (E1 : WithDescription StatusNotFound "  missing " []
               = Returns (mkStatus CodeNotFound None "missing" (Some 0%nat),
                          [∅])) by reflexivity.
  assert (E2 : WithDescription StatusNotFound "   " []
               = Returns (StatusNotFound, [])) by reflexivity.
  split.
  - eexists _, _. split; [exact E1 | ].
    rewrite (ToErrorCondition_after_WithDescription _ _ _ _ _ E1).
    reflexivity.
  - eexists _, _. split; [exact E2 | ].
    rewrite (ToErrorCondition_after_WithDescription _ _ _ _ _ E2).
    reflexivity.
Defined.

(** ** The factories at their bounds *)

(** X11. [NewWithCode] (and [toStatus], the same lookup) reads only the
    value of its code: for a value from 0 to 16 it returns the prototype of
    the canonical code with that value, whatever the name, and for any other
    value it panics, the index being out of range. *)
Theorem NewWithCode_bounds (c : Code) :
  (0 ≤ value c < 17 →
   ∃ c', c' ∈ codeList ∧ value c' = value c
         ∧ NewWithCode c = Returns (newStatus c')
         ∧ toStatus c = Returns (newStatus c'))
  ∧ (¬ (0 ≤ value c < 17) →
     NewWithCode c = Panics "index out of range"
     ∧ toStatus c = Panics "index out of range").
Proof.
  unfold NewWithCode, toStatus. split; intros H.
  - remember (value c) as v eqn:Hv. clear Hv.
    index_cases v;
      (eexists; split; [ | split; [ | split; reflexivity]];
       [rewrite codeList_eq; apply (bool_decide_unpack _); by vm_compute
       | reflexivity]).
  - unfold index. rewrite bool_decide_true; [done | ].
    change (length statusList) with 17%nat. lia.
Qed.

Lemma NewWithCode_bounds_zero_code :
  (∃ c', c' ∈ codeList ∧ value c' = 0
         ∧ NewWithCode (newCode "" 0) = Returns (newStatus c')
         ∧ toStatus (newCode "" 0) = Returns (newStatus c'))
  ∧ NewWithCode (newCode "x" 17) = Panics "index out of range".
Proof.
  split.
  - apply (proj1 (NewWithCode_bounds (newCode "" 0))). simpl. lia.
  - apply (proj2 (NewWithCode_bounds (newCode "x" 17))). simpl. lia.
Defined.

(** X12. [NewWithCodeValue] never panics, yet what [AddDetail] then does
    depends on the value: on the prototype returned for a value from 0 to 16
    it panics, and on the Unknown status returned for any other value, which
    comes with a new empty map, it stores the entry. *)
Theorem NewWithCodeValue_then_AddDetail (v : Z) (key : string) (x : any)
    (h : heap) :
  strings_pkg.TrimSpace key ≠ "" →
  ∃ s h1,
    NewWithCodeValue v h = Returns (s, h1)
    ∧ AddDetail s key x h1
      = if bool_decide (0 ≤ v < 17)
        then Panics "assignment to entry in nil map"
        else Returns (tt, h ++ [ {[ strings_pkg.TrimSpace key := x ]} ]).
Proof.
  intros Hk. case_bool_decide as Hv.
  - exists (newStatus (newCode (name (default CodeOK (codeList !! Z.to_nat v))) v)), h.
    split; [index_cases v; reflexivity | ].
    unfold AddDetail. cbv zeta. by rewrite bool_decide_false.
  - eexists _, _. split; [apply NewWithCodeValue_out_of_range; lia | ].
    rewrite (AddDetail_insert _ (length h)).
    + do 2 f_equal. unfold entries. rewrite list_lookup_middle by done. simpl.
      rewrite insert_app_r_alt by done. by rewrite Nat.sub_diag.
    + reflexivity.
    + rewrite length_app. simpl. lia.
    + unfold blankKey. by rewrite bool_decide_false.
Qed.

Lemma NewWithCodeValue_then_AddDetail_999 :
  ∃ s h1,
    NewWithCodeValue 999 [] = Returns (s, h1)
    ∧ AddDetail s "resource" (AString "file.txt") h1
      = Returns (tt, [ {[ "resource" := AString "file.txt" ]} ]).
Proof.
  assert (Hk : strings_pkg.TrimSpace "resource" ≠ "")
    by (intros X; vm_compute in X; discriminate X).
  destruct (NewWithCodeValue_then_AddDetail 999 "resource"
              (AString "file.txt") [] Hk) as (s & h1 & E & Ea).
  exists s, h1. split; [exact E | ]. rewrite Ea. reflexivity.
Defined.

(** ** The wire statuses, from the wire side *)

(** X13. [NewByHTTPStatus] writes one line to the log for every defined wire
    status, the line that reports no status was found for it, and writes
    nothing for an undefined one. *)
Theorem NewByHTTPStatus_log (v : Z) :
  (NewByHTTPStatus v).1
  = if http.IsDefined v
    then [ "[OpError] not found op-status mapped to given defined http status "
           +:+ fmt.itoa v +:+ newline ]
    else [].
Proof.
  destruct (http.IsDefined v) eqn:Hv.
  - apply IsDefined_spec in Hv. listed Hv; reflexivity.
  - unfold NewByHTTPStatus. by rewrite Hv.
Qed.

(** X14. For every defined wire status [v], the status [NewByHTTPStatus]
    returns is the prototype of a canonical code whose wire status is [v]
    again: from the wire side the two tables are inverse to each other. *)
Theorem wire_to_status_and_back (v : Z) :
  http.IsDefined v = true →
  ∃ c, (NewByHTTPStatus v).2 = newStatus c
       ∧ c ∈ codeList
       ∧ toHTTPStatus c = v.
Proof.
  intros Hv. apply IsDefined_spec in Hv.
  listed Hv;
    (eexists; split; [reflexivity | ];
     split; [rewrite codeList_eq; apply (bool_decide_unpack _); by vm_compute
            | reflexivity]).
Qed.

Lemma wire_to_status_and_back_409 :
  ∃ c, (NewByHTTPStatus 409).2 = newStatus c
       ∧ c ∈ codeList
       ∧ toHTTPStatus c = 409.
Proof. exact (wire_to_status_and_back 409 eq_refl). Defined.

(** X15. [toHTTPStatus] yields a defined wire status exactly for the
    canonical codes: for any other code, a key the table lacks, the map read
    gives the zero value 0, which is no wire status. *)
Theorem toHTTPStatus_defined_iff (c : Code) :
  (http.IsDefined (toHTTPStatus c) = true ↔ c ∈ codeList)
  ∧ (c ∉ codeList → toHTTPStatus c = 0).
Proof.
  assert (Hin : codeToHTTPStatus !! c = None → c ∉ codeList).
  { rewrite codeList_eq. intros E H. listed H; vm_compute in E; discriminate E. }
  unfold toHTTPStatus. destruct (codeToHTTPStatus !! c) as [hs | ] eqn:E.
  - apply elem_of_list_to_map_2 in E.
    assert (Hc : c ∈ codeList ∧ http.IsDefined hs = true).
    { rewrite codeList_eq.
      repeat (apply elem_of_cons in E as [E | E];
              [injection E as -> ->;
               split; [apply (bool_decide_unpack _); by vm_compute
                      | reflexivity] | ]).
      exfalso. exact (not_elem_of_nil _ E). }
    destruct Hc as [Hc Hd]. simpl. split; [by split | done].
  - specialize (Hin eq_refl). simpl. split; [ | done].
    split; [discriminate | done].
Qed.

(** X16. Among the statuses the factories return, OK is the one for the
    wire status 200 and for the code value 0, and no other. *)
Theorem IsOK_of_factories :
  (∀ v, IsOK (NewByHTTPStatus v).2 = true ↔ v = 200)
  ∧ (∀ v h s h', NewWithCodeValue v h = Returns (s, h') →
                 (IsOK s = true ↔ v = 0)).
Proof.
  split.
  - intros v. destruct (http.IsDefined v) eqn:Hv.
    + apply IsDefined_spec in Hv. listed Hv; by vm_compute.
    + assert (E : NewByHTTPStatus v = ([], StatusUnknown))
        by (unfold NewByHTTPStatus; by rewrite Hv).
      rewrite E. split; [discriminate | ]. intros ->. discriminate Hv.
  - intros v h s h'. destruct (decide (0 ≤ v < 17)) as [Hv | Hv].
    + index_cases v; intros [= <- _]; by vm_compute.
    + rewrite NewWithCodeValue_out_of_range by lia. intros [= <- _].
      split; [discriminate | lia].
Qed.

(** ** The chain walk as it runs *)

(** X17. [StatusFromErrChain] returns nil for every error that [IsNil]
    accepts and panics inside [errors.As] for every other error, whatever its
    chain holds; the errors that [NewWithStatus] and [NewWithStatusAndCause]
    build are of the second kind. *)
Theorem StatusFromErrChain_nil_or_panic :
  (∀ err, StatusFromErrChain err
          = if IsNil err then Returns None
            else Panics "errors: *target must be interface or implement error")
  ∧ (∀ st, IsNil (ptrOpError (Some (NewWithStatus st))) = false)
  ∧ (∀ st c, IsNil (ptrOpError (Some (NewWithStatusAndCause st c))) = false).
Proof.
  split; [ | split; reflexivity].
  intros err. destruct (IsNil err) eqn:H.
  - unfold StatusFromErrChain. by rewrite H.
  - by apply StatusFromErrChain_panics.
Qed.

(** ** The registry and its sort *)

(** X18. The registry depends neither on the sorting algorithm nor on the
    order in which the codes are appended: every rearrangement of the
    appended codes that is sorted by value is [codeList]. *)
Theorem codeList_independent_of_sort (l : list Code) :
  l ≡ₚ appendedCodes → Sorted byValue l → l = codeList.
Proof.
  intros Hp Hs. by apply codeList_any_sort.
Qed.

Lemma codeList_independent_of_sort_reversed :
  merge_sort byValue (reverse appendedCodes) = codeList.
Proof.
  apply codeList_independent_of_sort.
  - rewrite merge_sort_Permutation. apply reverse_Permutation.
  - apply Sorted_merge_sort, _.
Defined.
